(** * SithCodec: a shallow embedding of the codec library and its properties

    The development follows [codec.cpp] and [codec.h] (the 2022 library)
    function by function.  The two blocks of the 2020 revision
    ([SithCodec/SithCodec.h]) that choose and write the header are embedded
    as well, in [Module Legacy], for the statement that compares the two
    revisions.

    Modelling choices, in the order of the file:
    - a byte is [Byte.byte]; a file's contents are a [list byte];
    - [std::ifstream] is a record holding the file's bytes, the get position
      of its buffer and the two state bits the codec can observe;
    - the file system is a finite map from path spellings to nodes;
    - functions that can throw live in a small state-and-exception monad
      over the file system. *)

From Stdlib Require Import Strings.Byte Strings.Ascii ZArith Lia.
From stdpp Require Import gmap strings list fin_maps.

Local Open Scope string_scope.
Local Open Scope nat_scope.
Local Open Scope list_scope.

(** ** Audio formats ([enum class AudioFormat], codec.h) *)

Inductive AudioFormat := None_ | SFX | VO.

Definition AudioFormat_eqb (a b : AudioFormat) : bool :=
  match a, b with
  | None_, None_ | SFX, SFX | VO, VO => true
  | _, _ => false
  end.

Definition toString (format : AudioFormat) : string :=
  match format with
  | SFX => "SFX"
  | VO => "VO"
  | None_ => "None"
  end.

(** ** The header registry ([namespace Header], fileheaders.h)

    codec.cpp uses five names of that namespace: the byte arrays [sfx] and
    [vo] and the sizes [sfxSize], [voSize] and [maxSize]. *)

Module Header.

(** Modelled from the spec: fileheaders.h is not part of the sources at
    hand, so the two signatures are the fields of a table that every
    definition below takes as a parameter.  Section 3 of the specification
    gives each format "an exact byte sequence and its length", and section
    4.1 calls the read size the larger of all signature lengths; the sizes
    are therefore the lengths of the arrays and [maxSize] their maximum. *)
Record table := { sfx : list byte; vo : list byte }.

Definition sfxSize (t : table) : nat := length (sfx t).
Definition voSize (t : table) : nat := length (vo t).
Definition maxSize (t : table) : nat := Nat.max (sfxSize t) (voSize t).

End Header.

(** ** Input streams ([std::istream] over a file buffer)

    [content] is what the file held when it was opened, [gpos] the get
    position of the stream buffer.  [failbit] and [eofbit] are the state
    bits; [badbit] is never raised by the operations used here. *)

Record istream := mkIstream {
  content : list byte;
  gpos : nat;
  failbit : bool;
  eofbit : bool
}.

Definition fresh_stream (data : list byte) : istream :=
  mkIstream data 0 false false.

Definition good (s : istream) : bool := negb (failbit s) && negb (eofbit s).
Definition fail (s : istream) : bool := failbit s.

Definition setstate_fail (s : istream) : istream :=
  mkIstream (content s) (gpos s) true (eofbit s).
Definition setstate_eof_fail (s : istream) : istream :=
  mkIstream (content s) (gpos s) true true.
Definition clear_eof (s : istream) : istream :=
  mkIstream (content s) (gpos s) (failbit s) false.
Definition set_gpos (s : istream) (p : nat) : istream :=
  mkIstream (content s) p (failbit s) (eofbit s).

(** The input sentry with [noskipws = true] ([istream.sentry]): a stream
    that is not [good] gets [failbit] and the operation is skipped. *)
Definition sentry (s : istream) : bool * istream :=
  if good s then (true, s) else (false, setstate_fail s).

(** [tellg()]: the position, or [-1] when the stream has failed. *)
Definition tellg (s : istream) : Z * istream :=
  let '(_, s1) := sentry s in
  if fail s1 then ((-1)%Z, s1) else (Z.of_nat (gpos s1), s1).

(** [seekg(off, ios::beg)] and [seekg(pos)] ([istream.unformatted]): since
    C++11 the call first clears [eofbit], and only [eofbit]; after the
    sentry the buffer is asked to seek only if [fail()] does not hold.  A
    file buffer accepts any non-negative offset, also past the end. *)
Definition seekg (s : istream) (off : Z) : istream :=
  let '(_, s1) := sentry (clear_eof s) in
  if fail s1 then s1
  else if (off <? 0)%Z then setstate_fail s1
  else set_gpos s1 (Z.to_nat off).

(** [read(buf, n)] ([istream.unformatted]): on a good stream, up to [n]
    bytes are taken from the buffer; when the end of the file comes first,
    [setstate(failbit | eofbit)] is called.  The result is the bytes
    stored at the start of [buf]. *)
Definition read (s : istream) (n : nat) : list byte * istream :=
  let '(ok, s1) := sentry s in
  if ok then
    let got := take n (drop (gpos s1) (content s1)) in
    let s2 := set_gpos s1 (gpos s1 + length got) in
    (got, if length got =? n then s2 else setstate_eof_fail s2)
  else ([], s1).

(** [copy(istreambuf_iterator(input), {}, ...)]: the iterators work on the
    stream buffer directly, whatever the state bits say, and stop at the
    end of the file. *)
Definition drain (s : istream) : list byte * istream :=
  (drop (gpos s) (content s),
   set_gpos s (Nat.max (gpos s) (length (content s)))).

(** [std::equal(a, a + n, b)] *)
Fixpoint equal (n : nat) (a b : list byte) : bool :=
  match n with
  | 0 => true
  | S n' =>
      match a, b with
      | x :: a', y :: b' => Byte.eqb x y && equal n' a' b'
      | _, _ => false
      end
  end.

(** ** Paths ([std::filesystem::path], generic format)

    A path is its spelling.  The decomposition functions follow the
    standard's on spellings without a root name and without redundant
    separators. *)

Definition slash : ascii := "/"%char.
Definition dot : ascii := "."%char.

(** The text before the last separator, when there is one, and the text
    after it. *)
Fixpoint split_path (p : string) : option string * string :=
  match p with
  | EmptyString => (None, EmptyString)
  | String c p' =>
      match split_path p' with
      | (Some d, f) => (Some (String c d), f)
      | (None, f) =>
          if Ascii.eqb c slash then (Some EmptyString, f)
          else (None, String c f)
      end
  end.

Definition join_path (d : option string) (f : string) : string :=
  match d with
  | Some d' => d' +:+ String slash f
  | None => f
  end.

Definition filename (p : string) : string := snd (split_path p).

(** [parent_path()]: the root directory is its own parent. *)
Definition parent_path (p : string) : string :=
  match fst (split_path p) with
  | Some EmptyString => "/"
  | Some d => d
  | None => ""
  end.

(** The text before the last dot, when there is one, and the text from
    that dot on. *)
Fixpoint split_dot (f : string) : option string * string :=
  match f with
  | EmptyString => (None, EmptyString)
  | String c f' =>
      match split_dot f' with
      | (Some st, e) => (Some (String c st), e)
      | (None, e) =>
          if Ascii.eqb c dot then (Some EmptyString, String c e)
          else (None, String c e)
      end
  end.

(** [stem()]: a filename that is [.] or [..], or whose only dot comes
    first, has no extension. *)
Definition stem (f : string) : string :=
  if String.eqb f "." || String.eqb f ".." then f
  else match fst (split_dot f) with
       | Some EmptyString => f
       | Some st => st
       | None => f
       end.

(** [extension()] of the filename of [p]. *)
Definition extension (p : string) : string :=
  let f := filename p in
  if String.eqb f "." || String.eqb f ".." then ""
  else match split_dot f with
       | (Some EmptyString, _) => ""
       | (Some _, e) => e
       | (None, _) => ""
       end.

(** [replace_extension(r)]: drop the extension, then append [r], with a
    dot in front when [r] is not empty and has none. *)
Definition replace_extension (p r : string) : string :=
  let '(d, f) := split_path p in
  let r' := match r with
            | EmptyString => r
            | String c _ => if Ascii.eqb c dot then r else String dot r
            end in
  join_path d (stem f +:+ r').

(** [p / q] *)
Definition path_append (p q : string) : string :=
  match q with
  | String c _ =>
      if Ascii.eqb c slash then q
      else if String.eqb p "" then q
      else if String.eqb (filename p) "" then p +:+ q
      else p +:+ String slash q
  | EmptyString =>
      if String.eqb (filename p) "" then p else p +:+ "/"
  end.

(** ** The file system

    A finite map from spellings to nodes, each node under its spelling
    without a trailing separator.  The empty path names nothing and the
    root directory always exists.  A spelling that ends with a separator
    names the directory spelled without it, and names nothing when a file
    is there.  Spellings with dot or dot-dot elements are not resolved:
    the map is over the spellings that have none. *)

Inductive node := File (data : list byte) | Dir.

(** The spelling without its trailing separators; empty for the root. *)
Fixpoint canon (p : string) : string :=
  match p with
  | EmptyString => EmptyString
  | String c p' =>
      match canon p' with
      | EmptyString =>
          if Ascii.eqb c slash then EmptyString else String c EmptyString
      | String c' q => String c (String c' q)
      end
  end.

Definition status (fs : gmap string node) (p : string) : option node :=
  if String.eqb p "" then None
  else if String.eqb (canon p) "" then Some Dir
  else match fs !! canon p with
       | Some (File data) =>
           if String.eqb (canon p) p then Some (File data) else None
       | Some Dir => Some Dir
       | None => None
       end.

Definition exists_ (fs : gmap string node) (p : string) : bool :=
  match status fs p with Some _ => true | None => false end.

Definition is_directory (fs : gmap string node) (p : string) : bool :=
  match status fs p with Some Dir => true | _ => false end.

(** A new entry can be made in [d]: the current directory (the empty
    parent) or an existing directory. *)
Definition dir_ok (fs : gmap string node) (d : string) : bool :=
  String.eqb d "" || is_directory fs d.

Definition has_entries (fs : gmap string node) (d : string) : bool :=
  existsb (fun kv => String.eqb (parent_path (fst kv)) d) (map_to_list fs).

(** ** Effects

    A function of the library runs against the file system and either
    returns, throws a [std::exception] carrying its [what()] text, or
    leaves the defined behaviour of the language ([Undefined], which no
    handler can catch). *)

Inductive result (A : Type) : Type :=
| Ret (a : A)
| Throw (what : string)
| Undefined.

Arguments Ret {A} a.
Arguments Throw {A} what.
Arguments Undefined {A}.

Definition IO (A : Type) : Type :=
  gmap string node -> result A * gmap string node.

Definition ret {A : Type} (a : A) : IO A := fun fs => (Ret a, fs).
Definition throw {A : Type} (what : string) : IO A := fun fs => (Throw what, fs).
Definition undefined {A : Type} : IO A := fun fs => (Undefined, fs).

Definition bind {A B : Type} (m : IO A) (k : A -> IO B) : IO B :=
  fun fs =>
    match m fs with
    | (Ret a, fs') => k a fs'
    | (Throw w, fs') => (Throw w, fs')
    | (Undefined, fs') => (Undefined, fs')
    end.

Notation "x <- m ;; k" := (bind m (fun x => k))
  (at level 100, m at next level, right associativity).
Notation "m ;;; k" := (bind m (fun _ => k))
  (at level 100, right associativity).

(** [try { m } catch (const exception& ex) { h(ex.what()) }] *)
Definition try_catch {A : Type} (m : IO A) (h : string -> IO A) : IO A :=
  fun fs =>
    match m fs with
    | (Throw w, fs') => h w fs'
    | r => r
    end.

(** [std::ifstream file(p)]: the stream, or nothing when [!file]. Only a
    regular file can be opened for reading. *)
Definition ifstream (p : string) : IO (option istream) :=
  fun fs =>
    (Ret (match status fs p with
          | Some (File data) => Some (fresh_stream data)
          | _ => None
          end), fs).

(** [std::ofstream file(p, ios::binary)]: creates the file or truncates it;
    [false] when [!file].  No file is created under a spelling that ends
    with a separator. *)
Definition ofstream (p : string) : IO bool :=
  fun fs =>
    match status fs p with
    | Some Dir => (Ret false, fs)
    | Some (File _) => (Ret true, <[p := File []]> fs)
    | None =>
        if negb (String.eqb p "") && String.eqb (canon p) p
           && dir_ok fs (parent_path p)
        then (Ret true, <[p := File []]> fs)
        else (Ret false, fs)
    end.

(** What was written to an output stream is the file's contents once the
    stream is closed. *)
Definition write_close (p : string) (data : list byte) : IO unit :=
  fun fs => (Ret tt, <[p := File data]> fs).

(** [remove(p, error)]: the result tells whether [error] is set.  A
    directory that still has entries cannot be removed. *)
Definition fs_remove (p : string) : IO bool :=
  fun fs =>
    match status fs p with
    | None => (Ret false, fs)
    | Some (File _) => (Ret false, delete (canon p) fs)
    | Some Dir =>
        if String.eqb (canon p) "" || has_entries fs (canon p)
        then (Ret true, fs)
        else (Ret false, delete (canon p) fs)
    end.

Definition filesystemErrorMsg (op p : string) : string :=
  "filesystem error: cannot " +:+ op +:+ ": " +:+ p.

(** [create_directories(p)]: every missing element of [p] is created, the
    outermost first; an element that exists and is no directory makes it
    throw.  The recursion follows [parent_path], which shortens the
    spelling, so the length of [p] bounds it. *)
Fixpoint create_directories_from (n : nat) (p : string)
  (fs : gmap string node) : option (gmap string node) :=
  match status fs p with
  | Some Dir => Some fs
  | Some (File _) => None
  | None =>
      if String.eqb p "" then Some fs
      else match n with
           | 0 => None
           | S n' =>
               match create_directories_from n' (parent_path p) fs with
               | Some fs' => Some (<[canon p := Dir]> fs')
               | None => None
               end
           end
  end.

Definition create_directories (p : string) : IO unit :=
  fun fs =>
    match create_directories_from (String.length p) p fs with
    | Some fs' => (Ret tt, fs')
    | None => (Throw (filesystemErrorMsg "create directories" p), fs)
    end.

(** [rename(from, to)] for a regular file [from], the only kind the codec
    renames: [to] is replaced when it is a file; it must not be a
    directory nor end with a separator, and its parent must exist. *)
Definition fs_rename (from to : string) : IO unit :=
  fun fs =>
    match status fs from with
    | Some (File data) =>
        if String.eqb from to then (Ret tt, fs)
        else if is_directory fs to || String.eqb to ""
                || negb (String.eqb (canon to) to)
                || negb (dir_ok fs (parent_path to))
        then (Throw (filesystemErrorMsg "rename" from), fs)
        else (Ret tt, <[to := File data]> (delete from fs))
    | _ => (Throw (filesystemErrorMsg "rename" from), fs)
    end.

(** ** Messages (codec.cpp) *)

Definition dquote : string := String (ascii_of_nat 34) EmptyString.

Definition openErrorMsg (path : string) : string :=
  "Failed to open " +:+ dquote +:+ path +:+ dquote +:+ ".".

Definition eofErrorMsg (path : string) : string :=
  "Reached end of " +:+ dquote +:+ path +:+ dquote
  +:+ " before data could be read.".

Definition writeErrorMsg (path : string) : string :=
  "Failed to write " +:+ dquote +:+ path +:+ dquote +:+ ".".

Definition deleteErrorMsg (path : string) : string :=
  "Failed to delete " +:+ dquote +:+ path +:+ dquote +:+ ".".

(** ** File operations of a batch ([struct FileOperation], codec.h) *)

Record FileOperation := mkOp { path : string; error : option string }.

(** [std::getline(file, str)] on the bytes not read yet: the characters up
    to the next newline, which is consumed and dropped, and what is left;
    nothing when no character could be extracted. *)
Definition newline : byte := x0a.

Fixpoint getline (data : list byte) : option (list byte * list byte) :=
  match data with
  | [] => None
  | b :: data' =>
      if Byte.eqb b newline then Some ([], data')
      else match getline data' with
           | Some (str, rest) => Some (b :: str, rest)
           | None => Some ([b], [])
           end
  end.

(** [while (getline(file, str)) operations.push_back({ str, nullopt })].
    Every successful [getline] consumes at least one byte, so [n] beyond
    the number of bytes left never cuts the loop short. *)
Fixpoint getline_loop (n : nat) (data : list byte) : list FileOperation :=
  match n with
  | 0 => []
  | S n' =>
      match getline data with
      | Some (str, rest) =>
          mkOp (String.string_of_list_byte str) None :: getline_loop n' rest
      | None => []
      end
  end.

(** [for (auto& op : operations) ...]: the body runs on each element in
    turn and leaves its new value in place. *)
Fixpoint for_each {A : Type} (body : A -> IO A) (l : list A) : IO (list A) :=
  match l with
  | [] => ret []
  | x :: l' =>
      x' <- body x ;;
      rest <- for_each body l' ;;
      ret (x' :: rest)
  end.

(** [output.write(header, n)]: the [n] bytes at [header].  Reading through
    the null pointer, or past the end of the array, is undefined. *)
Definition ostream_write (header : option (list byte)) (n : nat)
  : option (list byte) :=
  match header with
  | Some bytes => if n <=? length bytes then Some (take n bytes) else None
  | None => if n =? 0 then Some [] else None
  end.

Definition fs_exists (p : string) : IO bool :=
  fun fs => (Ret (exists_ fs p), fs).

Definition fs_is_directory (p : string) : IO bool :=
  fun fs => (Ret (is_directory fs p), fs).

(** The entries below [dir], as [recursive_directory_iterator] walks them:
    in the order of the map's enumeration, which stands for the
    implementation-defined order of the walk. *)
Definition below (dir k : string) : bool :=
  String.prefix (path_append dir "") k
  && negb (String.eqb k (path_append dir "")).

Definition recursive_directory_iterator (dir : string)
  : IO (list string) :=
  fun fs =>
    if is_directory fs dir
    then (Ret (List.filter (below dir) (map fst (map_to_list fs))), fs)
    else (Throw (filesystemErrorMsg "open directory" dir), fs).

Section Codec.

Variable H : Header.table.

(** [getTempPath] draws random names until one names nothing.  [tempName]
    is the name the loop ends with, for a given state of the file system. *)
Variable tempName : gmap string node -> string.

(** [std::filesystem::relative], which resolves both paths against the
    file system before comparing them. *)
Variable relative : gmap string node -> string -> string -> string.

(** What the uninitialised array of [formatOf] holds when [decode] calls
    it. *)
Variable junk : list byte.

Local Abbreviation sfxSize := (Header.sfxSize H).
Local Abbreviation voSize := (Header.voSize H).
Local Abbreviation maxSize := (Header.maxSize H).

(** [getHeader]: the array, or the null pointer ([None]). *)
Definition getHeader (format : AudioFormat) : option (list byte) :=
  match format with
  | SFX => Some (Header.sfx H)
  | VO => Some (Header.vo H)
  | None_ => None
  end.

Definition sizeOfHeader (format : AudioFormat) : nat :=
  match format with
  | SFX => sfxSize
  | VO => voSize
  | None_ => maxSize
  end.

Definition mp3 : string := ".mp3".
Definition wav : string := ".wav".

Definition getEncodeExtension (format : AudioFormat) : string := wav.

Definition getDecodeExtension (format : AudioFormat) : string :=
  if AudioFormat_eqb format VO then mp3 else wav.

(** [skipHeader]: the switch has no case for [None]. *)
Definition skipHeader (input : istream) (format : AudioFormat) : istream :=
  match format with
  | SFX => seekg input (Z.of_nat sfxSize)
  | VO => seekg input (Z.of_nat voSize)
  | None_ => input
  end.

(** The local array [char header[Header::maxSize]] of [formatOf] is not
    initialised: [array] stands for the [maxSize] bytes it happens to hold.
    After the read its first bytes are the bytes read. *)
Definition fill (array got : list byte) : list byte :=
  got ++ drop (length got) array.

Definition matchHeader (header : list byte) : AudioFormat :=
  if negb (sfxSize =? 0) && equal sfxSize header (Header.sfx H) then SFX
  else if negb (voSize =? 0) && equal voSize header (Header.vo H) then VO
  else None_.

(** The stream statements of [formatOf]: remember the position, go to the
    start, read [maxSize] bytes, go back.  The result is the bytes the read
    stored, and the stream as the caller gets it back. *)
Definition readHeader (file : istream) : list byte * istream :=
  let '(pos, file1) := tellg file in
  let file2 := seekg file1 0 in
  let '(got, file3) := read file2 maxSize in
  (got, seekg file3 pos).

Definition formatOf (array : list byte) (file : istream)
  : AudioFormat * istream :=
  let '(got, file') := readHeader file in
  (matchHeader (fill array got), file').

Definition getTempPath : IO string :=
  fun fs => (Ret (tempName fs), fs).

Definition getRelativePath (path directory : string) : IO string :=
  fun fs =>
    let relativePath := relative fs path directory in
    (Ret (if String.eqb relativePath "" then filename path
          else relativePath), fs).

(** The last statements of [encode] and of [decode], which differ in the
    extension only (codec.cpp, lines 89-101 and 149-161). *)
Definition finalize (tempPath outputPath extension : string) : IO unit :=
  present <- fs_exists outputPath ;;
  (if present then
     failed <- fs_remove outputPath ;;
     if failed then throw (deleteErrorMsg outputPath) else ret tt
   else if negb (String.eqb (parent_path outputPath) "") then
     create_directories (parent_path outputPath)
   else ret tt) ;;;
  fs_rename tempPath (replace_extension outputPath extension).

Definition encode (inputPath : string) (format : AudioFormat)
  (outputPath : string) : IO unit :=
  input <- ifstream inputPath ;;
  match input with
  | None => throw (openErrorMsg inputPath)
  | Some input =>
      tempPath <- getTempPath ;;
      output <- ofstream tempPath ;;
      if negb output then throw (writeErrorMsg tempPath)
      else
        let header := getHeader format in
        let headerSize := sizeOfHeader format in
        match ostream_write header headerSize with
        | None => undefined
        | Some written =>
            let '(copied, _) := drain input in
            write_close tempPath (written ++ copied) ;;;
            finalize tempPath outputPath (getEncodeExtension format)
        end
  end.

Definition decode (inputPath outputPath : string) : IO unit :=
  input <- ifstream inputPath ;;
  match input with
  | None => throw (openErrorMsg inputPath)
  | Some input =>
      tempPath <- getTempPath ;;
      output <- ofstream tempPath ;;
      if negb output then throw (writeErrorMsg tempPath)
      else
        let '(format, input1) := formatOf junk input in
        let input2 := skipHeader input1 format in
        let '(copied, _) := drain input2 in
        write_close tempPath copied ;;;
        finalize tempPath outputPath (getDecodeExtension format)
  end.

Definition loadOperationsFromFolder (path : string)
  : IO (list FileOperation) :=
  entries <- recursive_directory_iterator path ;;
  fun fs =>
    (Ret (map (fun entry => mkOp entry None)
            (List.filter (fun entry => negb (is_directory fs entry)) entries)),
     fs).

Definition loadOperationsFromFile (path : string)
  : IO (list FileOperation) :=
  file <- ifstream path ;;
  match file with
  | None => throw (openErrorMsg path)
  | Some file =>
      ret (getline_loop (S (length (content file))) (content file))
  end.

Definition loadOperations (path : string) : IO (list FileOperation) :=
  isdir <- fs_is_directory path ;;
  if isdir then loadOperationsFromFolder path
  else loadOperationsFromFile path.

(** The statements of [encodeAll] and [decodeAll] before the loop. *)
Definition outputDirectoryOf (inputPath outputPath : string) : IO string :=
  present <- fs_exists inputPath ;;
  if negb present then throw (openErrorMsg inputPath)
  else
    let outputDirectory :=
      if String.eqb outputPath "" then inputPath else outputPath in
    present' <- fs_exists outputDirectory ;;
    (if negb present' && negb (String.eqb outputDirectory "")
     then create_directories outputDirectory else ret tt) ;;;
    isdir <- fs_is_directory outputDirectory ;;
    if negb isdir then throw (openErrorMsg outputPath)
    else ret outputDirectory.

(** One turn of the loop: the transform inside [try], the handler storing
    [ex.what()] in the operation. *)
Definition attempt (transform : string -> string -> IO unit)
  (inputPath outputDirectory : string) (op : FileOperation)
  : IO FileOperation :=
  try_catch
    (rel <- getRelativePath (path op) inputPath ;;
     transform (path op) (path_append outputDirectory rel) ;;;
     ret op)
    (fun what => ret (mkOp (path op) (Some what))).

Definition encodeAll (inputPath : string) (format : AudioFormat)
  (outputPath : string) : IO (list FileOperation) :=
  outputDirectory <- outputDirectoryOf inputPath outputPath ;;
  operations <- loadOperations inputPath ;;
  for_each
    (attempt (fun i o => encode i format o) inputPath outputDirectory)
    operations.

Definition decodeAll (inputPath outputPath : string)
  : IO (list FileOperation) :=
  outputDirectory <- outputDirectoryOf inputPath outputPath ;;
  operations <- loadOperations inputPath ;;
  for_each (attempt decode inputPath outputDirectory) operations.

End Codec.

(** ** The 2020 revision ([SithCodec/SithCodec.h])

    Its [formatOf], and the two blocks of its [encode] that choose the
    header and write the output file (lines 452-474).  The names of the
    header table are [SFX], [SFX_SIZE], [VO], [VO_SIZE] and [MAX_SIZE]
    there. *)

Module Legacy.

Section Revision2020.

Variable H : Header.table.

(** [headersMatch(headerA, headerB, size)] *)
Fixpoint headersMatch (headerA headerB : list byte) (size : nat) : bool :=
  match size with
  | 0 => true
  | S size' =>
      match headerA, headerB with
      | a :: headerA', b :: headerB' =>
          if Byte.eqb a b then headersMatch headerA' headerB' size'
          else false
      | _, _ => false
      end
  end.

(** [while (file && index < MAX_SIZE) { file.read(header + index, 1);
    ++index; }] with [turns] for [MAX_SIZE - index]: the index counts every
    read, also the one that fails. *)
Fixpoint fill_loop (turns : nat) (file : istream) (header : list byte)
  (index : nat) : list byte * nat * istream :=
  match turns with
  | 0 => (header, index, file)
  | S turns' =>
      if fail file then (header, index, file)
      else
        let '(got, file') := read file 1 in
        let header' := match got with
                       | b :: _ => <[index := b]> header
                       | [] => header
                       end in
        fill_loop turns' file' header' (S index)
  end.

(** [formatOf(inStr)]; [array] is what the local array holds at first. *)
Definition formatOf (array : list byte) (inStr : string) : IO AudioFormat :=
  file <- ifstream inStr ;;
  match file with
  | None => throw (openErrorMsg inStr)
  | Some file =>
      let '(header, index, file') :=
        fill_loop (Header.maxSize H) file array 0 in
      if (Header.sfxSize H <=? index)
         && headersMatch header (Header.sfx H) (Header.sfxSize H)
      then ret SFX
      else if (Header.voSize H <=? index)
              && headersMatch header (Header.vo H) (Header.voSize H)
      then ret VO
      else if fail file' then throw (eofErrorMsg inStr)
      else ret None_
  end.

(** [switch (format)] under "Determine header info". *)
Definition headerInfo (format : AudioFormat) : option (list byte) * nat :=
  match format with
  | SFX => (Some (Header.sfx H), Header.sfxSize H)
  | VO => (Some (Header.vo H), Header.voSize H)
  | None_ => (None, 0)
  end.

(** [for (i = 0; i < headerSize; ++i) output.write(header + i, 1)], from
    index [i] on, [count] turns to go. *)
Fixpoint header_loop (header : option (list byte)) (i count : nat)
  : option (list byte) :=
  match count with
  | 0 => Some []
  | S count' =>
      match header with
      | Some bytes =>
          match bytes !! i with
          | Some b =>
              match header_loop header (S i) count' with
              | Some rest => Some (b :: rest)
              | None => None
              end
          | None => None
          end
      | None => None
      end
  end.

(** [while (input) { input.read(&ch, 1); output.write(&ch, 1); }]: the
    write follows every read, also the one that fails and leaves [ch] as it
    was.  A turn moves the position or raises [failbit], so [n] beyond the
    number of bytes plus one never cuts the loop short. *)
Fixpoint copy_loop (n : nat) (input : istream) (ch : byte) : list byte :=
  match n with
  | 0 => []
  | S n' =>
      if fail input then []
      else
        let '(got, input') := read input 1 in
        let ch' := match got with b :: _ => b | [] => ch end in
        ch' :: copy_loop n' input' ch'
  end.

(** The bytes [encode] writes for an input file holding [data]; [ch] is
    what the uninitialised local [ch] holds at first. *)
Definition written (format : AudioFormat) (data : list byte) (ch : byte)
  : option (list byte) :=
  let '(header, headerSize) := headerInfo format in
  match header_loop header 0 headerSize with
  | Some head =>
      Some (head ++ copy_loop (length data + 2) (fresh_stream data) ch)
  | None => None
  end.

End Revision2020.

End Legacy.

(** ** Notions used in the statements *)

(** The file and the signature hold different bytes at some index that
    both have. *)
Definition disagree (data signature : list byte) : Prop :=
  exists (i : nat) (b c : byte),
    data !! i = Some b /\ signature !! i = Some c /\ b <> c.

(** What [decode] detects in, and copies from, an input file that holds
    [data]: its statements between the opening of the two streams and the
    closing of the output. *)
Definition stripped (H : Header.table) (array data : list byte)
  : AudioFormat * list byte :=
  let '(format, input1) := formatOf H array (fresh_stream data) in
  (format, fst (drain (skipHeader H input1 format))).

(** The transform of one turn of the batch loop, with its output path. *)
Definition transformOn (relative : gmap string node -> string -> string -> string)
  (transform : string -> string -> IO unit)
  (inputPath outputDirectory : string) (op : FileOperation) : IO unit :=
  rel <- getRelativePath relative (path op) inputPath ;;
  transform (path op) (path_append outputDirectory rel).

(** A run of the batch loop, told operation by operation: every operation
    is given to the transform, in the order of the list and in the file
    system its predecessors left; it comes back unchanged when the
    transform returned and with the message when it threw. *)
Inductive batchRun (run : FileOperation -> IO unit)
  : list FileOperation -> gmap string node ->
    list FileOperation -> gmap string node -> Prop :=
| batchRun_nil (fs : gmap string node) : batchRun run [] fs [] fs
| batchRun_done (op : FileOperation) (ops results : list FileOperation)
    (fs fs1 fs2 : gmap string node) :
    run op fs = (Ret tt, fs1) ->
    batchRun run ops fs1 results fs2 ->
    batchRun run (op :: ops) fs (op :: results) fs2
| batchRun_failed (op : FileOperation) (ops results : list FileOperation)
    (what : string) (fs fs1 fs2 : gmap string node) :
    run op fs = (Throw what, fs1) ->
    batchRun run ops fs1 results fs2 ->
    batchRun run (op :: ops) fs (mkOp (path op) (Some what) :: results) fs2.


(** The lines of a list file, put back together with a newline after
    each. *)
Definition joined (lines : list (list byte)) : list byte :=
  concat (map (fun line => line ++ [newline]) lines).

(** A text that is empty or ends with a newline. *)
Definition terminated (data : list byte) : bool :=
  match last data with
  | Some b => Byte.eqb b newline
  | None => true
  end.

(** ** An instance to run the definitions on

    The documentation of the formats (audio-formats page) gives the sizes
    of the two headers, 470 bytes for SFX and 58 bytes for VO, and describes
    the SFX header as MP3-like and the VO header as WAVE-like.  The table
    below has those sizes; its bytes stand in for the ones of
    fileheaders.h. *)

Module Demo.

Definition headers : Header.table :=
  {| Header.sfx := [xff; xf3; x60; xc4] ++ repeat x00 466;
     Header.vo := [x52; x49; x46; x46] ++ repeat x00 54 |}.

Definition tempName (fs : gmap string node) : string :=
  "tmp/Qm3xT7aLw9ZkR2cV".

Definition relative (fs : gmap string node) (p base : string) : string :=
  "".

Definition array : list byte := repeat x2a 470.

(** A voice-over payload of two bytes, and a file of 480 bytes that carries
    no signature. *)
Definition payload : list byte := [xaa; xbb].
Definition plain : list byte := repeat x11 480.

Definition disk : gmap string node :=
  <["tmp" := Dir]>
    (<["in.dat" := File payload]>
       (<["song.mp3" := File plain]> ∅)).

(** The same with an output directory and a list file of three lines,
    the second naming a file that does not exist. *)
Definition listing : list byte :=
  String.list_byte_of_string "in.dat" ++ [newline]
  ++ String.list_byte_of_string "missing.dat" ++ [newline]
  ++ String.list_byte_of_string "song.mp3" ++ [newline].

Definition batchDisk : gmap string node :=
  <["out" := Dir]> (<["list.txt" := File listing]> disk).

End Demo.

Lemma equal_lookup (n : nat) : forall (a b : list byte) (i : nat),
  equal n a b = true -> i < n -> a !! i = b !! i.
Proof.
  induction n as [|n IH]; intros a b i Heq Hi; [lia|].
  destruct a as [|x a], b as [|y b]; simpl in Heq; try discriminate.
  apply andb_prop in Heq as [Hxy Hrest].
  apply byte_dec_bl in Hxy. subst y.
  destruct i as [|i]; [reflexivity|]. simpl. apply IH; [assumption|lia].
Qed.

Lemma equal_take (n : nat) : forall (a b : list byte),
  n <= length a -> n <= length b -> take n a = take n b -> equal n a b = true.
Proof.
  induction n as [|n IH]; intros a b Ha Hb Ht; [reflexivity|].
  destruct a as [|x a], b as [|y b]; simpl in *; try lia.
  injection Ht as -> Ht. rewrite (byte_dec_lb eq_refl). simpl.
  apply IH; [lia|lia|assumption].
Qed.

Section StreamFacts.

Implicit Types (s : istream) (n : nat) (off : Z).

Lemma tellg_good s : good s = true -> tellg s = (Z.of_nat (gpos s), s).
Proof.
  intros Hg. unfold tellg, sentry. rewrite Hg.
  unfold good in Hg. apply andb_prop in Hg as [Hf _].
  apply negb_true_iff in Hf. unfold fail. rewrite Hf. reflexivity.
Qed.

Lemma seekg_good s n :
  good s = true -> seekg s (Z.of_nat n) = set_gpos s n.
Proof.
  destruct s as [c p f e]. unfold good. simpl. intros Hg.
  apply andb_prop in Hg as [Hf He].
  apply negb_true_iff in Hf, He. subst f e.
  unfold seekg, sentry, good, clear_eof, fail, set_gpos. simpl.
  assert (Hz : (Z.of_nat n <? 0)%Z = false) by (apply Z.ltb_ge; lia).
  rewrite Hz, Nat2Z.id. reflexivity.
Qed.

Lemma seekg_failed s off : failbit s = true -> seekg s off = clear_eof s.
Proof.
  destruct s as [c p f e]. simpl. intros ->.
  unfold seekg, sentry, good, clear_eof, fail, setstate_fail. simpl.
  reflexivity.
Qed.

Lemma read_good s n :
  good s = true ->
  read s n =
    (take n (drop (gpos s) (content s)),
     if length (take n (drop (gpos s) (content s))) =? n
     then set_gpos s (gpos s + length (take n (drop (gpos s) (content s))))
     else setstate_eof_fail
            (set_gpos s (gpos s + length (take n (drop (gpos s) (content s)))))).
Proof. intros Hg. unfold read, sentry. rewrite Hg. reflexivity. Qed.

End StreamFacts.

Lemma readHeader_good (H : Header.table) (s : istream) :
  good s = true -> Header.maxSize H <= length (content s) ->
  readHeader H s = (take (Header.maxSize H) (content s), s).
Proof.
  intros Hg Hlen. unfold readHeader.
  rewrite (tellg_good s Hg).
  change 0%Z with (Z.of_nat 0). rewrite (seekg_good s 0 Hg).
  assert (Hg0 : good (set_gpos s 0) = true) by exact Hg.
  rewrite (read_good _ _ Hg0). cbn [gpos content set_gpos].
  rewrite drop_0, length_take, Nat.min_l, Nat.eqb_refl by lia.
  rewrite seekg_good by exact Hg.
  destruct s; reflexivity.
Qed.

Lemma readHeader_short (H : Header.table) (data : list byte) :
  length data < Header.maxSize H ->
  readHeader H (fresh_stream data)
  = (data, mkIstream data (length data) true false).
Proof.
  intros Hlen. unfold readHeader.
  rewrite tellg_good by reflexivity.
  change 0%Z with (Z.of_nat 0). rewrite seekg_good by reflexivity.
  rewrite read_good by reflexivity. cbn [gpos content set_gpos fresh_stream].
  rewrite drop_0, take_ge by lia.
  destruct (Nat.eqb_spec (length data) (Header.maxSize H)) as [E|_]; [lia|].
  rewrite seekg_failed by reflexivity. reflexivity.
Qed.

(** After a short read no seek takes effect and the buffer is at its end:
    whatever [skipHeader] is asked, the copy finds nothing. *)
Lemma drain_after_short_read (H : Header.table) (data : list byte)
  (format : AudioFormat) :
  fst (drain (skipHeader H (mkIstream data (length data) true false) format))
  = [].
Proof.
  destruct format; simpl; rewrite ?seekg_failed by reflexivity;
    unfold drain; simpl; apply drop_all.
Qed.

(** ** Detection and the stream position *)

(** C8, as amended: on a stream in good state that holds at least
    [maxSize] bytes, whatever its position, detection reads exactly the
    first [maxSize] bytes of the file (from offset 0, not from the current
    position) and hands the stream back as it was, position and state bits
    included; a second detection therefore gives the same format, whatever
    the local array held each time. *)
Theorem formatOf_restores_position (H : Header.table)
  (array array' : list byte) (s : istream) :
  good s = true ->
  Header.maxSize H <= length (content s) ->
  fst (readHeader H s) = take (Header.maxSize H) (content s)
  /\ snd (formatOf H array s) = s
  /\ gpos (snd (formatOf H array s)) = gpos s
  /\ fst (formatOf H array' (snd (formatOf H array s)))
     = fst (formatOf H array s).
Proof.
  intros Hg Hlen. unfold formatOf.
  rewrite (readHeader_good H s Hg Hlen). cbn [fst snd].
  rewrite (readHeader_good H s Hg Hlen). cbn [fst snd].
  repeat split.
  unfold fill. rewrite length_take, Nat.min_l by lia.
  unfold matchHeader.
  assert (Heq : forall n sig a,
    n <= Header.maxSize H ->
    equal n (take (Header.maxSize H) (content s) ++ a) sig
    = equal n (take (Header.maxSize H) (content s)) sig).
  { intros n. revert Hlen. generalize (Header.maxSize H) (content s).
    induction n as [|n IH]; intros m c Hlen sig a Hn; [reflexivity|].
    destruct m as [|m]; [lia|]. destruct c as [|x c]; [simpl in Hlen; lia|].
    simpl. destruct sig as [|y sig]; [reflexivity|].
    rewrite (IH m c) by (simpl in Hlen; lia). reflexivity. }
  rewrite !Heq by (unfold Header.maxSize; lia). reflexivity.
Qed.

Lemma formatOf_restores_position_witness :
  let s := mkIstream Demo.plain 7 false false in
  fst (readHeader Demo.headers s) = take 470 Demo.plain
  /\ snd (formatOf Demo.headers Demo.array s) = s
  /\ gpos (snd (formatOf Demo.headers Demo.array s)) = 7
  /\ fst (formatOf Demo.headers (repeat x00 470)
            (snd (formatOf Demo.headers Demo.array s)))
     = fst (formatOf Demo.headers Demo.array s).
Proof.
  apply (formatOf_restores_position Demo.headers Demo.array (repeat x00 470)
           (mkIstream Demo.plain 7 false false)).
  - reflexivity.
  - vm_compute. lia.
Defined.

(** C8, as stated, fails: with the position at 1 in a file that starts with
    the SFX signature, the bytes read are the first 470 of the file, not
    the 470 that follow the position, and the answer is SFX although the
    bytes from the position on carry no signature. *)
Lemma formatOf_reads_from_start :
  let s := mkIstream (Header.sfx Demo.headers ++ [x01]) 1 false false in
  fst (readHeader Demo.headers s) = take 470 (content s)
  /\ fst (readHeader Demo.headers s) <> take 470 (drop (gpos s) (content s))
  /\ fst (formatOf Demo.headers Demo.array s) = SFX
  /\ matchHeader Demo.headers (take 470 (drop (gpos s) (content s))) = None_.
Proof.
  cbv zeta. split; [vm_compute; reflexivity|].
  split; [vm_compute; discriminate|].
  split; vm_compute; reflexivity.
Qed.

(** ** Detection on short files *)

Lemma equal_fill_disagree (array data signature : list byte) :
  disagree data signature ->
  equal (length signature) (fill array data) signature = false.
Proof.
  intros (i & b & c & Hb & Hc & Hne).
  destruct (equal (length signature) (fill array data) signature) eqn:E;
    [|reflexivity].
  exfalso. apply Hne.
  assert (Hi : i < length signature) by (eapply lookup_lt_Some; eassumption).
  pose proof (equal_lookup _ _ _ i E Hi) as Hsame.
  unfold fill in Hsame.
  rewrite lookup_app_l in Hsame by (eapply lookup_lt_Some; eassumption).
  congruence.
Qed.

(** C3, as amended: detection has no exceptional outcome ([formatOf] is a
    total function into the formats), and on a file strictly shorter than
    the largest signature it answers None whenever the file differs from
    each signature at some byte the file has.  A short file that starts
    with the whole VO signature (and differs from the SFX one) is VO. *)
Theorem formatOf_short_file (H : Header.table) (array data : list byte) :
  length data < Header.maxSize H ->
  (disagree data (Header.sfx H) -> disagree data (Header.vo H) ->
   fst (formatOf H array (fresh_stream data)) = None_)
  /\ (disagree data (Header.sfx H) -> Header.voSize H <> 0 ->
      take (Header.voSize H) data = Header.vo H ->
      fst (formatOf H array (fresh_stream data)) = VO).
Proof.
  intros Hlen. unfold formatOf. rewrite (readHeader_short H data Hlen).
  cbn [fst]. unfold matchHeader, Header.sfxSize, Header.voSize. split.
  - intros Hs Hv.
    rewrite (equal_fill_disagree array data _ Hs).
    rewrite (equal_fill_disagree array data _ Hv).
    rewrite !andb_false_r. reflexivity.
  - intros Hs Hnz Hv.
    rewrite (equal_fill_disagree array data _ Hs), andb_false_r.
    assert (Hle : length (Header.vo H) <= length data).
    { rewrite <- Hv at 1. rewrite length_take. lia. }
    rewrite equal_take.
    + destruct (Nat.eqb_spec (length (Header.vo H)) 0); [contradiction|].
      reflexivity.
    + unfold fill. rewrite length_app. lia.
    + lia.
    + unfold fill. rewrite take_app_le by lia. rewrite Hv.
      symmetry. apply take_ge. lia.
Qed.

Lemma formatOf_short_file_witness :
  fst (formatOf Demo.headers Demo.array (fresh_stream Demo.payload)) = None_
  /\ fst (formatOf Demo.headers Demo.array
            (fresh_stream (Header.vo Demo.headers ++ Demo.payload))) = VO.
Proof.
  split.
  - apply (proj1 (formatOf_short_file Demo.headers Demo.array Demo.payload
                    ltac:(vm_compute; lia))).
    + exists 0, xaa, xff. repeat split; discriminate.
    + exists 0, xaa, x52. repeat split; discriminate.
  - apply (proj2 (formatOf_short_file Demo.headers Demo.array
                    (Header.vo Demo.headers ++ Demo.payload)
                    ltac:(vm_compute; lia))).
    + exists 0, x52, xff. repeat split; discriminate.
    + vm_compute. lia.
    + vm_compute. reflexivity.
Defined.

(** C3, as stated, fails: the 58 bytes of the VO signature make a file
    shorter than the largest signature (470 bytes), and it is detected as
    VO, not as None. *)
Lemma short_file_detected_as_VO :
  length (Header.vo Demo.headers) < Header.maxSize Demo.headers
  /\ fst (formatOf Demo.headers Demo.array
            (fresh_stream (Header.vo Demo.headers))) = VO
  /\ fst (formatOf Demo.headers Demo.array
            (fresh_stream (Header.vo Demo.headers))) <> None_.
Proof.
  split; [vm_compute; lia|].
  split; [vm_compute; reflexivity|vm_compute; discriminate].
Qed.

(** The 2020 revision on the same two files: it too takes the 58 bytes of
    the VO signature for a VO file, and it throws on the two-byte file,
    where the 2022 library answers None. *)
Example legacy_detection_on_short_files :
  fst (Legacy.formatOf Demo.headers Demo.array "voice.wav"
         (<["voice.wav" := File (Header.vo Demo.headers)]> Demo.disk))
  = Ret VO
  /\ fst (Legacy.formatOf Demo.headers Demo.array "in.dat" Demo.disk)
     = Throw (eofErrorMsg "in.dat")
  /\ fst (formatOf Demo.headers Demo.array (fresh_stream Demo.payload))
     = None_.
Proof. repeat split; vm_compute; reflexivity. Qed.

(** ** File system facts *)

Section FileSystemFacts.

Implicit Types (fs : gmap string node) (p q : string) (n : node).

Lemma canon_cons (c : ascii) p :
  canon (String c p)
  = match canon p with
    | EmptyString =>
        if Ascii.eqb c slash then EmptyString else String c EmptyString
    | String c' q => String c (String c' q)
    end.
Proof. reflexivity. Qed.


(** A spelling with a trailing separator splits into what comes before
    the separator and the empty filename. *)
Lemma canon_trailing p :
  canon p <> p ->
  exists d, split_path p = (Some d, "") /\ canon d = canon p.
Proof.
  induction p as [|c p IH]; [intros E; contradiction|].
  intros Hne. rewrite canon_cons in Hne.
  destruct p as [|c' p'].
  - cbn in Hne. cbn [split_path].
    destruct (Ascii.eqb c slash) eqn:Ec; [|contradiction].
    exists "". split; [reflexivity|].
    rewrite canon_cons. cbn [canon]. rewrite Ec. reflexivity.
  - assert (Hp : canon (String c' p') <> String c' p').
    { intros E. rewrite E in Hne. contradiction. }
    destruct (IH Hp) as (d & Hsplit & Hd).
    exists (String c d). split.
    + change (split_path (String c (String c' p')))
        with (match split_path (String c' p') with
              | (Some d0, f) => (Some (String c d0), f)
              | (None, f) =>
                  if Ascii.eqb c slash then (Some EmptyString, f)
                  else (None, String c f)
              end).
      rewrite Hsplit. reflexivity.
    + rewrite !canon_cons, Hd. reflexivity.
Qed.

Lemma parent_path_trailing p :
  canon p <> p -> canon p <> "" ->
  canon (parent_path p) = canon p /\ parent_path p <> "".
Proof.
  intros Hne Hroot. destruct (canon_trailing p Hne) as (d & Hsplit & Hd).
  unfold parent_path. rewrite Hsplit. cbn [fst].
  destruct d as [|c d]; [cbn in Hd; congruence|].
  split; [exact Hd|discriminate].
Qed.

Lemma status_File fs p data :
  status fs p = Some (File data) ->
  canon p = p /\ p <> "" /\ fs !! p = Some (File data).
Proof.
  unfold status.
  destruct (String.eqb_spec p ""); [discriminate|].
  destruct (String.eqb (canon p) ""); [discriminate|].
  destruct (fs !! canon p) as [[d|]|] eqn:E; try discriminate.
  destruct (String.eqb_spec (canon p) p) as [Hc|]; [|discriminate].
  intros [= <-]. rewrite Hc in E. auto.
Qed.

Lemma status_delete fs p q n :
  status (delete q fs) p = Some n -> status fs p = Some n.
Proof.
  unfold status.
  destruct (String.eqb p ""); [auto|].
  destruct (String.eqb (canon p) ""); [auto|].
  rewrite lookup_delete. destruct (decide (q = canon p)); [discriminate|auto].
Qed.

Lemma status_delete_ne fs p q :
  canon p <> q -> status (delete q fs) p = status fs p.
Proof.
  intros Hne. unfold status.
  rewrite lookup_delete_ne by congruence. reflexivity.
Qed.

Lemma status_insert_ne fs p q n :
  canon p <> q -> status (<[q := n]> fs) p = status fs p.
Proof.
  intros Hne. unfold status.
  rewrite lookup_insert_ne by congruence. reflexivity.
Qed.

Lemma status_insert_File fs p data :
  canon p = p -> p <> "" ->
  status (<[p := File data]> fs) p = Some (File data).
Proof.
  intros Hc Hne. unfold status. rewrite Hc.
  destruct (String.eqb_spec p ""); [contradiction|].
  rewrite lookup_insert_eq, String.eqb_refl. reflexivity.
Qed.



(** A file keeps its status when another spelling is written or removed. *)
Lemma status_File_ne fs p q data :
  status fs p = Some (File data) -> p <> q -> canon p <> q.
Proof.
  intros Hp Hne. apply status_File in Hp as (Hc & _). congruence.
Qed.

Lemma create_directories_from_File (k : nat) : forall p fs data,
  fs !! canon p = Some (File data) -> canon p <> "" ->
  create_directories_from k p fs = None.
Proof.
  induction k as [|k IH]; intros p fs data Hf Hroot;
    cbn [create_directories_from]; unfold status; rewrite Hf;
    destruct (String.eqb_spec p "") as [->|Hp];
    try (cbn in Hroot; contradiction);
    destruct (String.eqb_spec (canon p) ""); try contradiction;
    destruct (String.eqb_spec (canon p) p) as [Hc|Hc]; try reflexivity.
  destruct (parent_path_trailing p Hc Hroot) as [Hpar _].
  rewrite (IH (parent_path p) fs data); [reflexivity| |];
    rewrite Hpar; assumption.
Qed.

Lemma create_directories_from_keeps (k : nat) : forall p fs fs' q n,
  create_directories_from k p fs = Some fs' ->
  status fs q = Some n -> status fs' q = Some n.
Proof.
  induction k as [|k IH]; intros p fs fs' q n Hc Hq; simpl in Hc.
  - destruct (status fs p) as [[|]|] eqn:Hp; try discriminate.
    + congruence.
    + destruct (String.eqb p ""); congruence.
  - destruct (status fs p) as [[|]|] eqn:Hp; try discriminate.
    + congruence.
    + destruct (String.eqb_spec p "") as [|Hne]; [congruence|].
      destruct (create_directories_from k (parent_path p) fs) as [fs1|] eqn:Hrec;
        [|discriminate].
      injection Hc as <-.
      pose proof (IH _ _ _ _ _ Hrec Hq) as Hk.
      destruct (decide (canon q = canon p)) as [E|E];
        [|rewrite status_insert_ne by congruence; exact Hk].
      destruct n as [data|].
      * exfalso. apply status_File in Hq as (Hcq & Hq0 & Hq).
        rewrite Hcq in E. rewrite E in Hq.
        assert (Hroot : canon p <> "") by congruence.
        revert Hp. unfold status. rewrite Hq.
        destruct (String.eqb_spec p ""); [contradiction|].
        destruct (String.eqb_spec (canon p) ""); [contradiction|].
        destruct (String.eqb_spec (canon p) p) as [Hcp|Hcp]; [discriminate|].
        intros _.
        destruct (parent_path_trailing p Hcp Hroot) as [Hpar _].
        rewrite (create_directories_from_File k (parent_path p) fs data)
          in Hrec; [discriminate| |]; rewrite Hpar; assumption.
      * revert Hk. unfold status. rewrite E, lookup_insert_eq.
        destruct (String.eqb q ""); [auto|].
        destruct (String.eqb (canon p) ""); auto.
Qed.

Lemma fs_rename_Ret p q fs fs' :
  fs_rename p q fs = (Ret tt, fs') ->
  exists data, status fs p = Some (File data) /\ status fs' q = Some (File data).
Proof.
  unfold fs_rename. destruct (status fs p) as [[data|]|] eqn:Hp; try discriminate.
  destruct (String.eqb_spec p q) as [->|Hne].
  - intros [= <-]. eauto.
  - destruct (is_directory fs q) eqn:Hd; [discriminate|].
    destruct (String.eqb_spec q "") as [|Hq]; [discriminate|].
    destruct (String.eqb_spec (canon q) q) as [Hc|]; [|discriminate].
    simpl. destruct (negb (dir_ok fs (parent_path q))); [discriminate|].
    intros [= <-]. exists data. split; [reflexivity|].
    apply status_insert_File; assumption.
Qed.

End FileSystemFacts.

(** What [finalize] leaves at the output path, when it returns: the
    contents of the temporary file. *)
Lemma finalize_Ret (tempPath outputPath extension : string)
  (fs fs' : gmap string node) (data : list byte) :
  status fs tempPath = Some (File data) ->
  finalize tempPath outputPath extension fs = (Ret tt, fs') ->
  status fs' (replace_extension outputPath extension) = Some (File data).
Proof.
  intros Ht. unfold finalize, bind, fs_exists.
  assert (Hgo : forall fs1,
    (forall d, status fs1 tempPath = Some (File d) -> d = data) ->
    fs_rename tempPath (replace_extension outputPath extension) fs1
      = (Ret tt, fs') ->
    status fs' (replace_extension outputPath extension) = Some (File data)).
  { intros fs1 Hsame Hr. apply fs_rename_Ret in Hr as (d & Hd & Hq).
    rewrite (Hsame d Hd) in Hq. exact Hq. }
  destruct (exists_ fs outputPath).
  - unfold fs_remove.
    destruct (status fs outputPath) as [[d|]|] eqn:Ho.
    + unfold ret. apply Hgo. intros d' Hd'. apply status_delete in Hd'. congruence.
    + destruct (String.eqb (canon outputPath) ""
                || has_entries fs (canon outputPath)).
      * unfold throw. discriminate.
      * unfold ret. apply Hgo. intros d' Hd'. apply status_delete in Hd'. congruence.
    + unfold ret. apply Hgo. intros d' Hd'. congruence.
  - destruct (negb (String.eqb (parent_path outputPath) "")).
    + unfold create_directories.
      destruct (create_directories_from _ _ fs) as [fs1|] eqn:Hc; [|discriminate].
      apply Hgo. intros d' Hd'.
      pose proof (create_directories_from_keeps _ _ _ _ _ _ Hc Ht) as Hk.
      congruence.
    + unfold ret. apply Hgo. intros d' Hd'. congruence.
Qed.

(** ** The single-file transforms *)

Section Transforms.

Variable H : Header.table.
Variable tempName : gmap string node -> string.
Variable array : list byte.

Lemma ofstream_true (p : string) (fs : gmap string node) :
  fst (ofstream p fs) = Ret true ->
  ofstream p fs = (Ret true, <[p := File []]> fs) /\ p <> "" /\ canon p = p.
Proof.
  unfold ofstream.
  destruct (status fs p) as [[d|]|] eqn:Hp.
  - apply status_File in Hp as (Hc & Hne & _). auto.
  - discriminate.
  - destruct (String.eqb_spec p "") as [->|Hne]; [discriminate|].
    destruct (String.eqb_spec (canon p) p) as [Hc|]; [|discriminate].
    cbn [negb andb].
    destruct (dir_ok fs (parent_path p)); [auto|discriminate].
Qed.


Lemma encode_Ret_opened (fs fs' : gmap string node)
  (inputPath outputPath : string) (format : AudioFormat) (P : list byte) :
  status fs inputPath = Some (File P) ->
  encode H tempName inputPath format outputPath fs = (Ret tt, fs') ->
  fst (ofstream (tempName fs) fs) = Ret true.
Proof.
  intros Hin Henc.
  unfold encode, bind, ifstream, getTempPath in Henc. rewrite Hin in Henc.
  destruct (ofstream (tempName fs) fs) as [[[]| |] fs0]; simpl in *;
    try discriminate. reflexivity.
Qed.

Lemma decode_Ret_opened (fs fs' : gmap string node)
  (inputPath outputPath : string) (data : list byte) :
  status fs inputPath = Some (File data) ->
  decode H tempName array inputPath outputPath fs = (Ret tt, fs') ->
  fst (ofstream (tempName fs) fs) = Ret true.
Proof.
  intros Hin Hdec.
  unfold decode, bind, ifstream, getTempPath in Hdec. rewrite Hin in Hdec.
  destruct (ofstream (tempName fs) fs) as [[[]| |] fs0]; simpl in *;
    try discriminate. reflexivity.
Qed.

Lemma sizeOfHeader_getHeader (format : AudioFormat) (hdr : list byte) :
  getHeader H format = Some hdr -> sizeOfHeader H format = length hdr.
Proof. destruct format; simpl; intros [= <-]; reflexivity. Qed.

(** [encode] up to its last statements: the temporary file holds the
    header followed by the input. *)
Lemma encode_unfold (fs : gmap string node) (inputPath outputPath : string)
  (format : AudioFormat) (P hdr : list byte) :
  status fs inputPath = Some (File P) ->
  getHeader H format = Some hdr ->
  fst (ofstream (tempName fs) fs) = Ret true ->
  encode H tempName inputPath format outputPath fs
  = finalize (tempName fs) outputPath wav
      (<[tempName fs := File (hdr ++ P)]> fs).
Proof.
  intros Hin Hhdr Hout.
  apply ofstream_true in Hout as (Hout & _ & _).
  unfold encode, bind, ifstream, getTempPath. rewrite Hin, Hout. simpl negb.
  cbv iota. rewrite Hhdr, (sizeOfHeader_getHeader _ _ Hhdr).
  unfold ostream_write. rewrite Nat.leb_refl, take_ge by lia.
  unfold drain, write_close, fresh_stream, getEncodeExtension.
  cbn [fst snd gpos content negb]. cbv beta iota.
  rewrite drop_0, insert_insert_eq. reflexivity.
Qed.

(** [decode] up to its last statements. *)
Lemma decode_unfold (fs : gmap string node) (inputPath outputPath : string)
  (data : list byte) :
  status fs inputPath = Some (File data) ->
  fst (ofstream (tempName fs) fs) = Ret true ->
  decode H tempName array inputPath outputPath fs
  = finalize (tempName fs) outputPath
      (getDecodeExtension (fst (stripped H array data)))
      (<[tempName fs := File (snd (stripped H array data))]> fs).
Proof.
  intros Hin Hout.
  apply ofstream_true in Hout as (Hout & _ & _).
  unfold decode, bind, ifstream, getTempPath. rewrite Hin, Hout. simpl negb.
  cbv iota. unfold stripped.
  destruct (formatOf H array (fresh_stream data)) as [format input1].
  destruct (drain (skipHeader H input1 format)) as [copied input3] eqn:Hd.
  unfold write_close. cbn [fst snd negb]. cbv beta iota.
  rewrite insert_insert_eq. reflexivity.
Qed.

Lemma stripped_short (data : list byte) :
  length data < Header.maxSize H -> snd (stripped H array data) = [].
Proof.
  intros Hlen. unfold stripped, formatOf.
  rewrite (readHeader_short H data Hlen). cbn [snd].
  apply drain_after_short_read.
Qed.

Lemma stripped_None (data : list byte) :
  Header.maxSize H <= length data ->
  fst (stripped H array data) = None_ ->
  snd (stripped H array data) = data.
Proof.
  unfold stripped, formatOf. intros Hlen.
  rewrite (readHeader_good H (fresh_stream data) eq_refl Hlen).
  cbn [fst snd]. intros ->. reflexivity.
Qed.

(** When [encode] returns, the output path with the extension replaced
    holds the header followed by the input. *)
Lemma encode_Ret_output (fs fs' : gmap string node)
  (inputPath outputPath : string) (format : AudioFormat) (P hdr : list byte) :
  status fs inputPath = Some (File P) ->
  getHeader H format = Some hdr ->
  encode H tempName inputPath format outputPath fs = (Ret tt, fs') ->
  status fs' (replace_extension outputPath wav) = Some (File (hdr ++ P)).
Proof.
  intros Hin Hhdr Hret.
  pose proof (encode_Ret_opened _ _ _ _ _ _ Hin Hret) as Hout.
  rewrite (encode_unfold fs inputPath outputPath format P hdr Hin Hhdr Hout)
    in Hret.
  apply ofstream_true in Hout as (_ & Hne & Hroot).
  eapply finalize_Ret; [|exact Hret].
  apply status_insert_File; assumption.
Qed.

(** The array after the read of a file that starts with a whole signature
    and is at least as long as the largest one. *)
Lemma equal_fill_take (hdr P : list byte) :
  length hdr <= Header.maxSize H ->
  Header.maxSize H <= length (hdr ++ P) ->
  equal (length hdr) (fill array (take (Header.maxSize H) (hdr ++ P))) hdr
  = true.
Proof.
  intros Hm Hlen. apply equal_take.
  - unfold fill. rewrite length_app, length_take. lia.
  - lia.
  - unfold fill.
    rewrite take_app_le by (rewrite length_take; lia).
    rewrite take_take, Nat.min_l by lia.
    rewrite take_app_length, take_ge by lia. reflexivity.
Qed.

Lemma skip_and_drain (hdr P : list byte) :
  fst (drain (seekg (fresh_stream (hdr ++ P)) (Z.of_nat (length hdr)))) = P.
Proof.
  rewrite seekg_good by reflexivity. unfold drain.
  cbn [fst gpos content set_gpos fresh_stream].
  apply drop_app_length.
Qed.

(** The bytes [decode] takes out of an encoded file that is at least as
    long as the largest signature: the payload, provided the right format
    is detected, which for VO asks that the two signatures differ at some
    index both have. *)
Lemma stripped_encoded_SFX (P : list byte) :
  Header.sfxSize H <> 0 ->
  Header.maxSize H <= length (Header.sfx H ++ P) ->
  stripped H array (Header.sfx H ++ P) = (SFX, P).
Proof.
  intros Hnz Hlen. unfold stripped, formatOf.
  rewrite (readHeader_good H (fresh_stream _) eq_refl Hlen).
  cbn [content fresh_stream]. unfold matchHeader, Header.sfxSize in *.
  rewrite equal_fill_take;
    [|unfold Header.maxSize, Header.sfxSize; lia|exact Hlen].
  destruct (Nat.eqb_spec (length (Header.sfx H)) 0); [contradiction|].
  cbn [negb andb skipHeader]. unfold Header.sfxSize.
  rewrite skip_and_drain. reflexivity.
Qed.

Lemma stripped_encoded_VO (P : list byte) :
  Header.voSize H <> 0 ->
  disagree (Header.vo H) (Header.sfx H) ->
  Header.maxSize H <= length (Header.vo H ++ P) ->
  stripped H array (Header.vo H ++ P) = (VO, P).
Proof.
  intros Hnz (i & b & c & Hb & Hc & Hne) Hlen. unfold stripped, formatOf.
  rewrite (readHeader_good H (fresh_stream _) eq_refl Hlen).
  cbn [content fresh_stream]. unfold matchHeader.
  assert (Hm : Header.voSize H <= Header.maxSize H)
    by (unfold Header.maxSize; lia).
  assert (Hi : i < Header.voSize H) by (eapply lookup_lt_Some; eassumption).
  assert (Hsfx : equal (Header.sfxSize H)
                   (fill array (take (Header.maxSize H) (Header.vo H ++ P)))
                   (Header.sfx H) = false).
  { destruct (equal _ _ _) eqn:E; [|reflexivity]. exfalso. apply Hne.
    assert (Hi' : i < Header.sfxSize H) by (eapply lookup_lt_Some; eassumption).
    pose proof (equal_lookup _ _ _ i E Hi') as Hsame.
    unfold fill in Hsame.
    rewrite lookup_app_l in Hsame by (rewrite length_take; lia).
    rewrite lookup_take_lt in Hsame by lia.
    rewrite lookup_app_l in Hsame by exact Hi.
    congruence. }
  rewrite Hsfx, andb_false_r. unfold Header.voSize in *.
  rewrite equal_fill_take; [|exact Hm|exact Hlen].
  destruct (Nat.eqb_spec (length (Header.vo H)) 0); [contradiction|].
  cbn [negb andb skipHeader]. unfold Header.voSize.
  rewrite skip_and_drain. reflexivity.
Qed.

End Transforms.



(** *** Decomposition of the replaced path *)











Section SingleFile.

Variable H : Header.table.
Variable tempName : gmap string node -> string.
Variable array : list byte.


End SingleFile.


Lemma fs_rename_other (p q r : string) (fs fs' : gmap string node) :
  fs_rename p q fs = (Ret tt, fs') ->
  canon r <> p -> canon r <> q -> status fs' r = status fs r.
Proof.
  unfold fs_rename. destruct (status fs p) as [[data|]|]; try discriminate.
  destruct (String.eqb p q); [intros [= <-]; reflexivity|].
  destruct (is_directory fs q || String.eqb q ""
            || negb (String.eqb (canon q) q)
            || negb (dir_ok fs (parent_path q))); [discriminate|].
  intros [= <-] Hp Hq.
  rewrite status_insert_ne, status_delete_ne by assumption. reflexivity.
Qed.

Lemma finalize_no_output (tempPath extension : string)
  (fs : gmap string node) :
  finalize tempPath "" extension fs
  = fs_rename tempPath (replace_extension "" extension) fs.
Proof. reflexivity. Qed.

Section Defects.

Variable H : Header.table.
Variable tempName : gmap string node -> string.
Variable array : list byte.

(** C1 at its failing inputs: when the VO header and the payload together
    are shorter than the largest signature, encoding a file that holds [P]
    and decoding the result leaves an empty file at the output path,
    whatever [P] was.  The read of [formatOf] comes up short and raises
    [failbit], neither [seekg] that follows takes effect, and the copy
    starts at the end of the buffer. *)
Theorem roundtrip_loses_short_payload (fs fs1 fs2 : gmap string node)
  (inputPath midPath outputPath : string) (P : list byte) :
  status fs inputPath = Some (File P) ->
  Header.voSize H + length P < Header.maxSize H ->
  encode H tempName inputPath VO midPath fs = (Ret tt, fs1) ->
  decode H tempName array (replace_extension midPath wav) outputPath fs1
  = (Ret tt, fs2) ->
  exists extension,
    status fs2 (replace_extension outputPath extension) = Some (File []).
Proof.
  intros Hin Hlen Henc Hdec.
  pose proof (encode_Ret_output H tempName fs fs1 inputPath midPath VO P
                (Header.vo H) Hin eq_refl Henc) as Hfile.
  pose proof (decode_Ret_opened H tempName array _ _ _ _ _ Hfile Hdec)
    as Hout.
  rewrite (decode_unfold H tempName array fs1 _ outputPath _ Hfile Hout)
    in Hdec.
  rewrite stripped_short in Hdec
    by (rewrite length_app; unfold Header.voSize in Hlen; lia).
  eexists. eapply finalize_Ret; [|exact Hdec].
  apply ofstream_true in Hout as (_ & Hne & Hroot).
  apply status_insert_File; assumption.
Qed.

(** What does hold of the round trip: when the encoded file is at least as
    long as the largest signature and its format is detected, decoding it
    gives the payload back, under the extension of that format. *)
Lemma roundtrip_when_long_enough (fs fs1 fs2 : gmap string node)
  (inputPath midPath outputPath : string) (format : AudioFormat)
  (P hdr : list byte) :
  status fs inputPath = Some (File P) ->
  getHeader H format = Some hdr ->
  stripped H array (hdr ++ P) = (format, P) ->
  encode H tempName inputPath format midPath fs = (Ret tt, fs1) ->
  decode H tempName array (replace_extension midPath wav) outputPath fs1
  = (Ret tt, fs2) ->
  status fs2 (replace_extension outputPath (getDecodeExtension format))
  = Some (File P).
Proof.
  intros Hin Hhdr Hstrip Henc Hdec.
  pose proof (encode_Ret_output H tempName fs fs1 inputPath midPath format P
                hdr Hin Hhdr Henc) as Hfile.
  pose proof (decode_Ret_opened H tempName array _ _ _ _ _ Hfile Hdec)
    as Hout.
  rewrite (decode_unfold H tempName array fs1 _ outputPath _ Hfile Hout)
    in Hdec.
  rewrite Hstrip in Hdec. cbn [fst snd] in Hdec.
  eapply finalize_Ret; [|exact Hdec].
  apply ofstream_true in Hout as (_ & Hne & Hroot).
  apply status_insert_File; assumption.
Qed.

(** C2 at its failing inputs: on a file in which no signature is detected,
    [decode] does not stop; it copies to the temporary file what the stream
    still gives (the whole file when it has at least [maxSize] bytes,
    nothing when it is shorter) and installs it, so that when it returns
    the output path with the extension [.wav] holds that copy, and the file
    system has changed if nothing was there before. *)
Theorem decode_unrecognised_file_is_copied (fs fs' : gmap string node)
  (inputPath outputPath : string) (data : list byte) :
  status fs inputPath = Some (File data) ->
  fst (formatOf H array (fresh_stream data)) = None_ ->
  decode H tempName array inputPath outputPath fs = (Ret tt, fs') ->
  status fs' (replace_extension outputPath wav)
  = Some (File (if Header.maxSize H <=? length data then data else []))
  /\ (status fs (replace_extension outputPath wav) = None -> fs' <> fs).
Proof.
  intros Hin Hnone Hdec.
  pose proof (decode_Ret_opened H tempName array _ _ _ _ _ Hin Hdec) as Hout.
  assert (Hfmt : fst (stripped H array data) = None_).
  { unfold stripped. destruct (formatOf H array (fresh_stream data)).
    exact Hnone. }
  rewrite (decode_unfold H tempName array fs _ outputPath _ Hin Hout) in Hdec.
  rewrite Hfmt in Hdec.
  assert (Hcopy : snd (stripped H array data)
                  = if Header.maxSize H <=? length data then data else []).
  { destruct (Nat.leb_spec (Header.maxSize H) (length data)) as [Hle|Hlt].
    - exact (stripped_None H array data Hle Hfmt).
    - exact (stripped_short H array data Hlt). }
  rewrite Hcopy in Hdec.
  assert (Hfinal : status fs' (replace_extension outputPath wav)
                   = Some (File (if Header.maxSize H <=? length data
                                 then data else []))).
  { eapply finalize_Ret; [|exact Hdec].
    apply ofstream_true in Hout as (_ & Hne & Hroot).
    apply status_insert_File; assumption. }
  split; [exact Hfinal|]. intros Hbefore ->. congruence.
Qed.

(** C7 at its failing inputs: with the empty output path, the last
    statements rename the temporary file to the empty path with the
    extension appended, that is to [.wav] (or [.mp3]) in the current
    directory; the input file is not replaced. *)
Theorem empty_output_path_is_not_the_input (fs fs' : gmap string node)
  (inputPath : string) (format : AudioFormat) (P hdr : list byte) :
  status fs inputPath = Some (File P) ->
  getHeader H format = Some hdr ->
  exists_ fs (tempName fs) = false ->
  inputPath <> ".wav" ->
  inputPath <> ".mp3" ->
  (encode H tempName inputPath format "" fs = (Ret tt, fs') ->
   status fs' ".wav" = Some (File (hdr ++ P))
   /\ status fs' inputPath = Some (File P))
  /\ (decode H tempName array inputPath "" fs = (Ret tt, fs') ->
      status fs' inputPath = Some (File P)
      /\ exists final,
           (final = ".wav" \/ final = ".mp3")
           /\ status fs' final = Some (File (snd (stripped H array P)))).
Proof.
  intros Hin Hhdr Hfresh Hwav Hmp3.
  assert (Htmp : inputPath <> tempName fs).
  { intros E. unfold exists_ in Hfresh. rewrite <- E, Hin in Hfresh.
    discriminate. }
  apply (status_File_ne _ _ _ _ Hin) in Htmp, Hwav, Hmp3.
  split.
  - intros Henc.
    pose proof (encode_Ret_opened H tempName _ _ _ _ _ _ Hin Henc) as Htemp.
    split;
      [exact (encode_Ret_output H tempName _ _ _ _ _ _ _ Hin Hhdr Henc)|].
    rewrite (encode_unfold H tempName fs inputPath "" format P hdr
               Hin Hhdr Htemp), finalize_no_output in Henc.
    rewrite (fs_rename_other _ _ inputPath _ _ Henc Htmp Hwav).
    rewrite status_insert_ne by assumption. exact Hin.
  - intros Hdec.
    pose proof (decode_Ret_opened H tempName array _ _ _ _ _ Hin Hdec)
      as Htemp.
    rewrite (decode_unfold H tempName array fs inputPath "" P Hin Htemp)
      in Hdec.
    pose proof Hdec as Hren. rewrite finalize_no_output in Hren.
    assert (Hcase : replace_extension ""
                      (getDecodeExtension (fst (stripped H array P))) = ".wav"
                    \/ replace_extension ""
                      (getDecodeExtension (fst (stripped H array P))) = ".mp3").
    { destruct (fst (stripped H array P)); auto. }
    split.
    + rewrite (fs_rename_other _ _ inputPath _ _ Hren Htmp)
        by (destruct Hcase as [-> | ->]; assumption).
      rewrite status_insert_ne by assumption. exact Hin.
    + eexists. split; [exact Hcase|].
      eapply finalize_Ret; [|exact Hdec].
      apply ofstream_true in Htemp as (_ & Hne & Hroot).
      apply status_insert_File; assumption.
Qed.

End Defects.

Lemma roundtrip_loses_short_payload_witness :
  exists extension,
    status
      (snd (decode Demo.headers Demo.tempName Demo.array "mid.wav" "back.dat"
              (snd (encode Demo.headers Demo.tempName "in.dat" VO "mid.dat"
                      Demo.disk))))
      (replace_extension "back.dat" extension)
    = Some (File []).
Proof.
  apply (roundtrip_loses_short_payload Demo.headers Demo.tempName Demo.array
           Demo.disk
           (snd (encode Demo.headers Demo.tempName "in.dat" VO "mid.dat"
                   Demo.disk))
           _ "in.dat" "mid.dat" "back.dat" Demo.payload eq_refl
           ltac:(vm_compute; lia));
    vm_compute; reflexivity.
Defined.

(** The run of that witness, evaluated: the payload [[0xAA; 0xBB]] is
    encoded as VO into [mid.wav], 60 bytes long, and decoding [mid.wav]
    returns with an empty [back.mp3]. *)
Example roundtrip_of_two_bytes :
  let encoded := snd (encode Demo.headers Demo.tempName "in.dat" VO "mid.dat"
                        Demo.disk) in
  let decoded := decode Demo.headers Demo.tempName Demo.array "mid.wav"
                   "back.dat" encoded in
  status encoded "mid.wav"
  = Some (File (Header.vo Demo.headers ++ [xaa; xbb]))
  /\ fst decoded = Ret tt
  /\ status (snd decoded) "back.mp3" = Some (File []).
Proof. cbv zeta. repeat split; vm_compute; reflexivity. Qed.

(** The same payload encoded as SFX comes back: the SFX header is as long
    as the largest signature, so the read is never short. *)
Example roundtrip_of_two_bytes_SFX :
  let encoded := snd (encode Demo.headers Demo.tempName "in.dat" SFX "mid.dat"
                        Demo.disk) in
  let decoded := decode Demo.headers Demo.tempName Demo.array "mid.wav"
                   "back.dat" encoded in
  fst decoded = Ret tt
  /\ status (snd decoded) "back.wav" = Some (File [xaa; xbb]).
Proof. cbv zeta. split; vm_compute; reflexivity. Qed.

Lemma decode_unrecognised_file_is_copied_witness :
  let fs' := snd (decode Demo.headers Demo.tempName Demo.array "song.mp3"
                    "song.mp3" Demo.disk) in
  status fs' "song.wav" = Some (File Demo.plain)
  /\ (status Demo.disk "song.wav" = None -> fs' <> Demo.disk).
Proof.
  cbv zeta.
  apply (decode_unrecognised_file_is_copied Demo.headers Demo.tempName
           Demo.array Demo.disk _ "song.mp3" "song.mp3" Demo.plain eq_refl
           ltac:(vm_compute; reflexivity)).
  vm_compute. reflexivity.
Defined.

Lemma empty_output_path_is_not_the_input_witness :
  let fs' := snd (encode Demo.headers Demo.tempName "in.dat" SFX ""
                    Demo.disk) in
  status fs' ".wav" = Some (File (Header.sfx Demo.headers ++ Demo.payload))
  /\ status fs' "in.dat" = Some (File Demo.payload).
Proof.
  cbv zeta.
  apply (proj1 (empty_output_path_is_not_the_input Demo.headers Demo.tempName
           Demo.array Demo.disk _ "in.dat" SFX Demo.payload
           (Header.sfx Demo.headers) eq_refl eq_refl eq_refl
           ltac:(vm_compute; discriminate) ltac:(vm_compute; discriminate))).
  vm_compute. reflexivity.
Defined.


Lemma split_path_length (p : string) :
  match split_path p with
  | (Some d, f) => String.length p = String.length d + 1 + String.length f
  | (None, f) => f = p
  end.
Proof.
  induction p as [|c p IH]; [reflexivity|].
  simpl. destruct (split_path p) as [[d|] f].
  - simpl. lia.
  - subst f. destruct (Ascii.eqb c slash); simpl; [lia|reflexivity].
Qed.

Lemma parent_path_ne (p : string) : p <> "" -> p <> "/" -> parent_path p <> p.
Proof.
  intros Hne Hroot. unfold parent_path.
  pose proof (split_path_length p) as Hlen.
  destruct (split_path p) as [[d|] f]; simpl.
  - destruct d as [|c d]; [congruence|].
    intros E. rewrite <- E in Hlen at 1. lia.
  - congruence.
Qed.









Section ExistingOutput.

Variable H : Header.table.
Variable tempName : gmap string node -> string.
Variable array : list byte.





End ExistingOutput.



(** ** The batch loop *)

Lemma finalize_defined (tempPath outputPath extension : string)
  (fs : gmap string node) :
  fst (finalize tempPath outputPath extension fs) <> Undefined.
Proof.
  assert (Hrename : forall p q fs0, fst (fs_rename p q fs0) <> Undefined).
  { intros p q fs0. unfold fs_rename.
    destruct (status fs0 p) as [[d|]|]; try (cbn; discriminate).
    destruct (String.eqb p q); [cbn; discriminate|].
    destruct (is_directory fs0 q || String.eqb q ""
              || negb (String.eqb (canon q) q)
              || negb (dir_ok fs0 (parent_path q))); cbn; discriminate. }
  unfold finalize, bind, fs_exists.
  destruct (exists_ fs outputPath).
  - unfold fs_remove.
    destruct (status fs outputPath) as [[d|]|];
      [apply Hrename| |apply Hrename].
    destruct (String.eqb (canon outputPath) ""
              || has_entries fs (canon outputPath));
      [cbn; discriminate|apply Hrename].
  - destruct (negb (String.eqb (parent_path outputPath) ""));
      [|apply Hrename].
    unfold create_directories.
    destruct (create_directories_from _ _ fs);
      [apply Hrename|cbn; discriminate].
Qed.

Section Batch.

Variable H : Header.table.
Variable tempName : gmap string node -> string.
Variable relative : gmap string node -> string -> string -> string.
Variable array : list byte.

Lemma encode_defined (inputPath outputPath : string) (format : AudioFormat)
  (hdr : list byte) (fs : gmap string node) :
  getHeader H format = Some hdr ->
  fst (encode H tempName inputPath format outputPath fs) <> Undefined.
Proof.
  intros Hhdr. unfold encode, bind, ifstream, getTempPath.
  destruct (status fs inputPath) as [[P|]|]; try (cbn; discriminate).
  destruct (ofstream (tempName fs) fs) as [[[]| |] fs0] eqn:Ho;
    try (cbn; discriminate).
  - cbn [negb]. cbv iota.
    rewrite Hhdr, (sizeOfHeader_getHeader H _ _ Hhdr).
    unfold ostream_write. rewrite Nat.leb_refl.
    destruct (drain (fresh_stream P)) as [copied input']. unfold write_close.
    apply finalize_defined.
  - unfold ofstream in Ho.
    repeat match type of Ho with
           | context [match ?x with _ => _ end] => destruct x
           end; discriminate.
Qed.

Lemma decode_defined (inputPath outputPath : string)
  (fs : gmap string node) :
  fst (decode H tempName array inputPath outputPath fs) <> Undefined.
Proof.
  unfold decode, bind, ifstream, getTempPath.
  destruct (status fs inputPath) as [[P|]|]; try (cbn; discriminate).
  destruct (ofstream (tempName fs) fs) as [[[]| |] fs0] eqn:Ho;
    try (cbn; discriminate).
  - cbn [negb]. cbv iota.
    destruct (formatOf H array (fresh_stream P)) as [format input1].
    destruct (drain (skipHeader H input1 format)) as [copied input2].
    unfold write_close. apply finalize_defined.
  - unfold ofstream in Ho.
    repeat match type of Ho with
           | context [match ?x with _ => _ end] => destruct x
           end; discriminate.
Qed.

(** One turn of the loop never throws: the handler turns the exception of
    the transform into the message stored in the operation. *)
Lemma attempt_run (transform : string -> string -> IO unit)
  (inputPath outputDirectory : string) (op : FileOperation)
  (fs : gmap string node) :
  attempt relative transform inputPath outputDirectory op fs
  = match transformOn relative transform inputPath outputDirectory op fs with
    | (Ret _, fs1) => (Ret op, fs1)
    | (Throw what, fs1) => (Ret (mkOp (path op) (Some what)), fs1)
    | (Undefined, fs1) => (Undefined, fs1)
    end.
Proof.
  unfold attempt, transformOn, try_catch, bind, getRelativePath, ret.
  destruct (transform _ _ fs) as [[[]| |] fs1]; reflexivity.
Qed.

Lemma for_each_attempt (transform : string -> string -> IO unit)
  (inputPath outputDirectory : string) :
  (forall i o fs, fst (transform i o fs) <> Undefined) ->
  forall (operations : list FileOperation) (fs : gmap string node),
  exists results fs',
    for_each (attempt relative transform inputPath outputDirectory)
      operations fs = (Ret results, fs')
    /\ batchRun (transformOn relative transform inputPath outputDirectory)
         operations fs results fs'.
Proof.
  intros Hdef operations.
  induction operations as [|op operations IH]; intros fs.
  - exists [], fs. split; [reflexivity|constructor].
  - cbn [for_each]. unfold bind at 1. rewrite attempt_run.
    destruct (transformOn relative transform inputPath outputDirectory op fs)
      as [[[]| |] fs1] eqn:Hop.
    + destruct (IH fs1) as (results & fs' & Hrest & Hrun).
      exists (op :: results), fs'. unfold bind. rewrite Hrest.
      split; [reflexivity|]. econstructor 2; eassumption.
    + destruct (IH fs1) as (results & fs' & Hrest & Hrun).
      exists (mkOp (path op) (Some what) :: results), fs'.
      unfold bind. rewrite Hrest.
      split; [reflexivity|]. econstructor 3; eassumption.
    + exfalso. unfold transformOn, bind, getRelativePath in Hop.
      match type of Hop with
      | transform ?i ?o ?f = _ => apply (Hdef i o f)
      end. rewrite Hop. reflexivity.
Qed.

Lemma batchRun_shape (run : FileOperation -> IO unit)
  (operations results : list FileOperation) (fs fs' : gmap string node) :
  batchRun run operations fs results fs' ->
  length results = length operations
  /\ map path results = map path operations.
Proof.
  induction 1 as [fs|op ops results fs fs1 fs2 _ _ [IHl IHp]
                 |op ops results what fs fs1 fs2 _ _ [IHl IHp]];
    cbn [length map path]; split; congruence.
Qed.

(** Every operation before position [length before] has been run when the
    one at that position is, and those after it are run whatever its
    outcome was. *)
Lemma batchRun_app (run : FileOperation -> IO unit)
  (before after results : list FileOperation) (op : FileOperation)
  (fs fs' : gmap string node) :
  batchRun run (before ++ op :: after) fs results fs' ->
  exists results1 r results2 fs1 fs2,
    results = results1 ++ r :: results2
    /\ batchRun run before fs results1 fs1
    /\ batchRun run [op] fs1 [r] fs2
    /\ batchRun run after fs2 results2 fs'.
Proof.
  revert results fs. induction before as [|b before IH]; intros results fs Hrun.
  - cbn [app] in Hrun. inversion Hrun; subst.
    + exists [], op, results0, fs, fs1. repeat split; try constructor.
      * econstructor 2; [eassumption|constructor].
      * assumption.
    + exists [], (mkOp (path op) (Some what)), results0, fs, fs1.
      repeat split; try constructor.
      * econstructor 3; [eassumption|constructor].
      * assumption.
  - cbn [app] in Hrun. inversion Hrun; subst.
    + destruct (IH _ _ ltac:(eassumption))
        as (r1 & r & r2 & g1 & g2 & -> & Hb & Ho & Ha).
      exists (b :: r1), r, r2, g1, g2. repeat split; try assumption.
      econstructor 2; eassumption.
    + destruct (IH _ _ ltac:(eassumption))
        as (r1 & r & r2 & g1 & g2 & -> & Hb & Ho & Ha).
      exists (mkOp (path b) (Some what) :: r1), r, r2, g1, g2.
      repeat split; try assumption.
      econstructor 3; eassumption.
Qed.

End Batch.

Section BatchResults.

Variable H : Header.table.
Variable tempName : gmap string node -> string.
Variable relative : gmap string node -> string -> string -> string.
Variable array : list byte.

(** C4: once the input is resolved into [operations], [encodeAll] (for a
    format with a header) and [decodeAll] return; the results are as many
    as the operations and name the same paths in the same order; and they
    are those of a run in which every operation is given to the transform
    in turn, an exception of the transform becoming the message of that
    operation and the run going on with the next. *)
Theorem batch_attempts_every_operation (fs fs1 fs2 : gmap string node)
  (inputPath outputPath outputDirectory : string)
  (format : AudioFormat) (hdr : list byte)
  (operations : list FileOperation) :
  getHeader H format = Some hdr ->
  outputDirectoryOf inputPath outputPath fs = (Ret outputDirectory, fs1) ->
  loadOperations inputPath fs1 = (Ret operations, fs2) ->
  (exists results fs',
      encodeAll H tempName relative inputPath format outputPath fs
      = (Ret results, fs')
      /\ length results = length operations
      /\ map path results = map path operations
      /\ batchRun
           (transformOn relative (fun i o => encode H tempName i format o)
              inputPath outputDirectory)
           operations fs2 results fs')
  /\ (exists results fs',
        decodeAll H tempName relative array inputPath outputPath fs
        = (Ret results, fs')
        /\ length results = length operations
        /\ map path results = map path operations
        /\ batchRun
             (transformOn relative (decode H tempName array)
                inputPath outputDirectory)
             operations fs2 results fs').
Proof.
  intros Hhdr Hdir Hload. split.
  - destruct (for_each_attempt relative
                (fun i o => encode H tempName i format o)
                inputPath outputDirectory
                (fun i o g => encode_defined H tempName i o format hdr g Hhdr)
                operations fs2) as (results & fs' & Hloop & Hrun).
    exists results, fs'.
    destruct (batchRun_shape _ _ _ _ _ Hrun) as [Hlen Hpaths].
    repeat split; try assumption.
    unfold encodeAll, bind. rewrite Hdir, Hload. exact Hloop.
  - destruct (for_each_attempt relative (decode H tempName array)
                inputPath outputDirectory
                (fun i o g => decode_defined H tempName array i o g)
                operations fs2) as (results & fs' & Hloop & Hrun).
    exists results, fs'.
    destruct (batchRun_shape _ _ _ _ _ Hrun) as [Hlen Hpaths].
    repeat split; try assumption.
    unfold decodeAll, bind. rewrite Hdir, Hload. exact Hloop.
Qed.

End BatchResults.

Lemma batch_attempts_every_operation_witness :
  exists results fs',
    encodeAll Demo.headers Demo.tempName Demo.relative "list.txt" VO "out"
      Demo.batchDisk = (Ret results, fs')
    /\ length results = 3
    /\ map path results = ["in.dat"; "missing.dat"; "song.mp3"]
    /\ batchRun
         (transformOn Demo.relative
            (fun i o => encode Demo.headers Demo.tempName i VO o)
            "list.txt" "out")
         [mkOp "in.dat" None; mkOp "missing.dat" None; mkOp "song.mp3" None]
         Demo.batchDisk results fs'.
Proof.
  apply (proj1 (batch_attempts_every_operation Demo.headers Demo.tempName
           Demo.relative Demo.array Demo.batchDisk Demo.batchDisk
           Demo.batchDisk "list.txt" "out" "out" VO (Header.vo Demo.headers)
           [mkOp "in.dat" None; mkOp "missing.dat" None; mkOp "song.mp3" None]
           eq_refl eq_refl eq_refl)).
Defined.

(** The run of the witness, evaluated: the second file cannot be opened,
    its operation carries the message, and the third file is encoded all
    the same.  Where the outputs land is a matter of
    [std::filesystem::relative], which [Demo.relative] only stands for. *)
Example batch_with_unreadable_file :
  fst (encodeAll Demo.headers Demo.tempName Demo.relative "list.txt" VO "out"
         Demo.batchDisk)
  = Ret [mkOp "in.dat" None;
         mkOp "missing.dat" (Some (openErrorMsg "missing.dat"));
         mkOp "song.mp3" None].
Proof. vm_compute. reflexivity. Qed.

(** ** List files *)

Lemma getline_Some (data str rest : list byte) :
  getline data = Some (str, rest) ->
  ~ In newline str
  /\ (data = str ++ newline :: rest
      \/ (data = str /\ rest = [] /\ str <> [])).
Proof.
  revert str rest. induction data as [|b data IH]; intros str rest Hg;
    [discriminate|].
  cbn [getline] in Hg.
  destruct (Byte.eqb b newline) eqn:Hb.
  - injection Hg as <- <-. apply byte_dec_bl in Hb. subst b.
    split; [intros []|]. left. reflexivity.
  - assert (Hne : b <> newline).
    { intros ->. rewrite (byte_dec_lb eq_refl) in Hb. discriminate. }
    destruct (getline data) as [[str' rest']|] eqn:Hrec.
    + injection Hg as <- <-.
      destruct (IH _ _ eq_refl) as [Hnot Hshape]. split.
      * intros [E|Hin]; [congruence|contradiction].
      * destruct Hshape as [->|(-> & -> & Hnil)]; [left; reflexivity|].
        right. repeat split. discriminate.
    + injection Hg as <- <-. destruct data as [|c data].
      * split; [intros [E|[]]; congruence|].
        right. repeat split. discriminate.
      * cbn [getline] in Hrec. destruct (Byte.eqb c newline); [discriminate|].
        destruct (getline data) as [[? ?]|]; discriminate.
Qed.

Lemma terminated_cons_newline (str rest : list byte) :
  (if terminated (str ++ newline :: rest)
   then str ++ newline :: rest
   else (str ++ newline :: rest) ++ [newline])
  = str ++ newline
      :: (if terminated rest then rest else rest ++ [newline]).
Proof.
  unfold terminated. rewrite last_app_cons, last_cons.
  destruct (last rest) as [b|].
  - destruct (Byte.eqb b newline); [reflexivity|].
    rewrite <- app_assoc. reflexivity.
  - rewrite (byte_dec_lb eq_refl). reflexivity.
Qed.

Lemma terminated_no_newline (str : list byte) :
  ~ In newline str -> str <> [] -> terminated str = false.
Proof.
  intros Hnot Hne. unfold terminated.
  destruct (last str) as [b|] eqn:Hl.
  - destruct (Byte.eqb b newline) eqn:Hb; [|reflexivity].
    apply byte_dec_bl in Hb. subst b. exfalso. apply Hnot.
    apply last_Some in Hl as [l' ->]. apply in_or_app. right. left.
    reflexivity.
  - apply last_None in Hl. contradiction.
Qed.

Lemma getline_loop_lines (n : nat) : forall data : list byte,
  length data < n ->
  Forall (fun op => error op = None
                    /\ ~ In newline (String.list_byte_of_string (path op)))
    (getline_loop n data)
  /\ joined (map (fun op => String.list_byte_of_string (path op))
               (getline_loop n data))
     = (if terminated data then data else data ++ [newline]).
Proof.
  induction n as [|n IH]; intros data Hlen; [lia|].
  cbn [getline_loop].
  destruct (getline data) as [[str rest]|] eqn:Hg.
  - destruct (getline_Some _ _ _ Hg) as [Hnot Hshape].
    assert (Hrest : length rest < n).
    { destruct Hshape as [->|(_ & -> & _)].
      - rewrite length_app in Hlen. cbn [length] in *. lia.
      - destruct data; [discriminate|]. cbn [length] in *. lia. }
    destruct (IH rest Hrest) as [Hall Hjoin].
    split.
    + constructor; [|exact Hall]. cbn [error path].
      rewrite String.list_byte_of_string_of_list_byte. auto.
    + cbn [map path]. unfold joined in *. cbn [map concat].
      rewrite String.list_byte_of_string_of_list_byte, Hjoin.
      destruct Hshape as [->|(-> & -> & Hne)].
      * rewrite terminated_cons_newline, <- app_assoc. reflexivity.
      * rewrite (terminated_no_newline str Hnot Hne).
        cbn. rewrite app_nil_r. reflexivity.
  - destruct data as [|b data].
    + split; [constructor|reflexivity].
    + cbn [getline] in Hg. destruct (Byte.eqb b newline); [discriminate|].
      destruct (getline data) as [[? ?]|]; discriminate.
Qed.

(** C9, as amended: when the input path is a regular file, resolution
    gives one operation per line of the file, in the order of the lines,
    empty lines included.  Said with the bytes: no path holds a newline, no
    operation carries an error, and the paths, each followed by a newline,
    put end to end give back the file (with a newline added when the last
    line has none). *)
Theorem loadOperations_one_per_line (fs : gmap string node)
  (listPath : string) (data : list byte) :
  status fs listPath = Some (File data) ->
  exists operations,
    loadOperations listPath fs = (Ret operations, fs)
    /\ Forall (fun op => error op = None
                         /\ ~ In newline
                                (String.list_byte_of_string (path op)))
         operations
    /\ joined (map (fun op => String.list_byte_of_string (path op))
                 operations)
       = (if terminated data then data else data ++ [newline]).
Proof.
  intros Hin. exists (getline_loop (S (length data)) data).
  split.
  - unfold loadOperations, bind, fs_is_directory, is_directory.
    rewrite Hin. unfold loadOperationsFromFile, bind, ifstream.
    rewrite Hin. reflexivity.
  - apply getline_loop_lines. lia.
Qed.

Lemma loadOperations_one_per_line_witness :
  exists operations,
    loadOperations "list.txt" Demo.batchDisk = (Ret operations, Demo.batchDisk)
    /\ Forall (fun op => error op = None
                         /\ ~ In newline
                                (String.list_byte_of_string (path op)))
         operations
    /\ joined (map (fun op => String.list_byte_of_string (path op))
                 operations)
       = Demo.listing.
Proof.
  apply (loadOperations_one_per_line Demo.batchDisk "list.txt" Demo.listing
           eq_refl).
Defined.

(** C9, as stated, fails: a list file holding the line [a], an empty line
    and the line [b] resolves into three operations, the second with the
    empty path, where the claim has two. *)
Lemma empty_line_gives_operation :
  loadOperations "names.txt"
    (<["names.txt" := File [x61; x0a; x0a; x62; x0a]]> Demo.disk)
  = (Ret [mkOp "a" None; mkOp "" None; mkOp "b" None],
     <["names.txt" := File [x61; x0a; x0a; x62; x0a]]> Demo.disk).
Proof. vm_compute. reflexivity. Qed.

(** ** Encoding without a format *)

Lemma copy_loop_from (k : nat) : forall (data : list byte) (pos n : nat)
  (ch : byte),
  length data - pos = k -> k + 2 <= n ->
  Legacy.copy_loop n (mkIstream data pos false false) ch
  = drop pos data ++ [default ch (last (drop pos data))].
Proof.
  induction k as [|k IH]; intros data pos n ch Hk Hn.
  - destruct n as [|[|n]]; [lia|lia|].
    assert (Hd : drop pos data = []) by (apply drop_ge; lia).
    cbn [Legacy.copy_loop fail failbit]. rewrite read_good by reflexivity.
    cbn [gpos content]. rewrite Hd. reflexivity.
  - destruct n as [|n]; [lia|].
    cbn [Legacy.copy_loop fail failbit]. rewrite read_good by reflexivity.
    cbn [gpos content].
    destruct (drop pos data) as [|b rest] eqn:Hd.
    { apply (f_equal length) in Hd. rewrite length_drop in Hd.
      cbn [length] in Hd. lia. }
    assert (Hrest : rest = drop (S pos) data).
    { assert (Hb : data !! pos = Some b).
      { pose proof (lookup_drop data pos 0) as Hl.
        rewrite Hd, Nat.add_0_r in Hl. symmetry. exact Hl. }
      rewrite (drop_S _ _ _ Hb) in Hd. congruence. }
    cbn. rewrite take_0. cbn [length Nat.eqb].
    replace (pos + 1) with (S pos) by lia.
    change (set_gpos (mkIstream data pos false false) (S pos))
      with (mkIstream data (S pos) false false).
    rewrite (IH data (S pos) n b) by lia.
    rewrite <- Hrest. f_equal. f_equal.
    rewrite last_cons. destruct (last rest); reflexivity.
Qed.

Section NoFormat.

Variable H : Header.table.
Variable tempName : gmap string node -> string.

(** C10, the part on the 2022 library and the choice of the header in the
    2020 revision: for the format None, [getHeader] answers the null
    pointer and [sizeOfHeader] the largest size, so that [encode], once its
    two streams are open, asks for [maxSize] bytes to be written from the
    null pointer; the 2020 revision takes the null pointer with size 0 and
    writes no header.  Its loop then writes the input and one byte more, a
    second copy of the last byte read (or what [ch] held, for an empty
    input): the output is not the input. *)
Theorem encode_without_format (fs : gmap string node)
  (inputPath outputPath : string) (P : list byte) (ch : byte) :
  status fs inputPath = Some (File P) ->
  fst (ofstream (tempName fs) fs) = Ret true ->
  Header.maxSize H <> 0 ->
  getHeader H None_ = None
  /\ sizeOfHeader H None_ = Header.maxSize H
  /\ ostream_write (getHeader H None_) (sizeOfHeader H None_) = None
  /\ fst (encode H tempName inputPath None_ outputPath fs) = Undefined
  /\ Legacy.headerInfo H None_ = (None, 0)
  /\ Legacy.written H None_ P ch = Some (P ++ [default ch (last P)])
  /\ Legacy.written H None_ P ch <> Some P.
Proof.
  intros Hin Hout Hmax.
  assert (Hwrite : ostream_write (getHeader H None_) (sizeOfHeader H None_)
                   = None).
  { cbn [getHeader sizeOfHeader ostream_write].
    destruct (Nat.eqb_spec (Header.maxSize H) 0); [contradiction|reflexivity]. }
  assert (Hlegacy : Legacy.written H None_ P ch
                    = Some (P ++ [default ch (last P)])).
  { unfold Legacy.written. cbn [Legacy.headerInfo Legacy.header_loop app].
    unfold fresh_stream.
    rewrite (copy_loop_from (length P) P 0 (length P + 2) ch) by lia.
    rewrite drop_0. reflexivity. }
  repeat split; try assumption.
  - apply ofstream_true in Hout as (Hout & _ & _).
    unfold encode, bind, ifstream, getTempPath. rewrite Hin, Hout.
    cbn [negb]. cbv iota. rewrite Hwrite. reflexivity.
  - rewrite Hlegacy. intros [= E].
    apply (f_equal length) in E. rewrite length_app in E.
    cbn [length] in E. lia.
Qed.

End NoFormat.

Lemma encode_without_format_witness :
  fst (encode Demo.headers Demo.tempName "in.dat" None_ "out.dat" Demo.disk)
  = Undefined
  /\ Legacy.written Demo.headers None_ [xaa; xbb] x00
     = Some [xaa; xbb; xbb].
Proof.
  pose proof (encode_without_format Demo.headers Demo.tempName Demo.disk
                "in.dat" "out.dat" Demo.payload x00 eq_refl eq_refl
                ltac:(vm_compute; lia)) as (_ & _ & _ & Hu & _ & Hw & _).
  split; [exact Hu|exact Hw].
Defined.
